(** * LCShim: the syscall bridge of vminitd

    A shallow embedding of [vminitd/Sources/LCShim/syscall.c] and of its
    header [include/syscall.h].

    The four functions of the shim call into the C library ([syscall],
    [prctl]), which in turn traps into the kernel.  Neither is code of this
    repository, so both are kept abstract: a function of the shim is a
    finite tree of requests ([prog]), and running it ([exec]) threads an
    arbitrary world through an arbitrary [kernel].  The world stands for
    everything outside the shim: the kernel's tables, the caller's
    descriptor table and the process-wide error code. *)

From Stdlib Require Import ZArith Lia.
From stdpp Require Import base gmap strings list.

Local Open Scope Z_scope.

(** ** C integers *)

Module CInt.

(** [int] is 32 bits wide on the Linux targets of the shim, and [long]
    is wider (LP64). *)
Definition INT_MIN : Z := - 2 ^ 31.
Definition INT_MAX : Z := 2 ^ 31 - 1.

Definition in_int (z : Z) : Prop := INT_MIN <= z <= INT_MAX.

(** Conversion of a [long] to [int], as performed by [return e;] in a
    function returning [int] when [e] has type [long]: the value is kept
    when it fits and wraps around modulo [2^32] otherwise (the behaviour
    GCC and Clang define for the out-of-range case). *)
Definition int_of_long (z : Z) : Z :=
  (z + 2 ^ 31) mod 2 ^ 32 - 2 ^ 31.

End CInt.

Import CInt.

(** ** Requests to the C library and the kernel *)

(** An argument of a variadic call, tagged with its C type.  A
    [const char *] is passed as the address it holds: the shim never
    reads the string behind it. *)
Inductive carg : Type :=
| AInt (v : Z)
| AUInt (v : Z)
| APtr (p : Z).

(** The two entry points of the C library that the shim calls:
    [syscall(number, ...)] and [prctl(option, ...)]. *)
Inductive request : Type :=
| Syscall (number : Z) (args : list carg)
| Prctl (opt : Z) (args : list carg).

(** ** Programs over requests *)

(** A computation that may ask the kernel and continues with its answer. *)
Inductive prog (A : Type) : Type :=
| Return (a : A)
| Request (q : request) (k : Z -> prog A).

Arguments Return {A} a.
Arguments Request {A} q k.

Fixpoint prog_bind {A B : Type} (f : A -> prog B) (p : prog A) : prog B :=
  match p with
  | Return a => f a
  | Request q k => Request q (fun r => prog_bind f (k r))
  end.

#[global] Instance prog_mret : MRet prog := fun A a => Return a.
#[global] Instance prog_mbind : MBind prog := fun A B f p => prog_bind f p.

(** [long syscall(long number, ...)] of the C library. *)
Definition syscall (number : Z) (args : list carg) : prog Z :=
  Request (Syscall number args) Return.

(** [int prctl(int option, ...)] of the C library. *)
Definition prctl (opt : Z) (args : list carg) : prog Z :=
  Request (Prctl opt args) Return.

(** ** syscall.c *)

Section Functions.

(** The macros that [syscall.c] takes from the system headers; the two
    [pidfd] numbers are the ones in effect after [syscall.h] has been
    read (see [Cpp.syscall_h]). *)
Variables SYS_pivot_root PR_SET_CHILD_SUBREAPER : Z.
Variables SYS_pidfd_open SYS_pidfd_getfd : Z.

Definition CZ_pivot_root (new_root put_old : Z) : prog Z :=
  r ← syscall SYS_pivot_root [APtr new_root; APtr put_old];
  mret (int_of_long r).

Definition CZ_set_sub_reaper : prog Z :=
  prctl PR_SET_CHILD_SUBREAPER [AInt 1].

Definition CZ_pidfd_open (pid flags : Z) : prog Z :=
  r ← syscall SYS_pidfd_open [AInt pid; AUInt flags];
  mret (int_of_long r).

Definition CZ_pidfd_getfd (pidfd targetfd flags : Z) : prog Z :=
  r ← syscall SYS_pidfd_getfd [AInt pidfd; AInt targetfd; AUInt flags];
  mret (int_of_long r).

End Functions.

(** ** Running a program against a kernel *)

Record outcome (A W : Type) : Type := Outcome {
  result : A;
  world : W;
  trace : list (request * Z)
}.

Arguments Outcome {A W} _ _ _.
Arguments result {A W} _.
Arguments world {A W} _.
Arguments trace {A W} _.

Section Exec.

Context {World : Type}.
Variable kernel : request -> World -> Z * World.

(** [trace] lists the requests issued, each with the kernel's answer, in
    the order of issue. *)
Fixpoint exec {A : Type} (p : prog A) (w : World) : outcome A World :=
  match p with
  | Return a => Outcome a w []
  | Request q k =>
      let a := kernel q w in
      let o := exec (k (fst a)) (snd a) in
      Outcome (result o) (world o) ((q, fst a) :: trace o)
  end.

End Exec.

(** ** The interface of the shim *)

(** One call into the shim: the four prototypes of [syscall.h]. *)
Inductive call : Type :=
| PivotRoot (new_root put_old : Z)
| SetSubReaper
| PidfdOpen (pid flags : Z)
| PidfdGetfd (pidfd targetfd flags : Z).

(** The integer an argument carries. *)
Definition arg_value (a : carg) : Z :=
  match a with
  | AInt v | AUInt v | APtr v => v
  end.

Section Interface.

Variables SYS_pivot_root PR_SET_CHILD_SUBREAPER : Z.
Variables SYS_pidfd_open SYS_pidfd_getfd : Z.

Definition invoke (c : call) : prog Z :=
  match c with
  | PivotRoot new_root put_old => CZ_pivot_root SYS_pivot_root new_root put_old
  | SetSubReaper => CZ_set_sub_reaper PR_SET_CHILD_SUBREAPER
  | PidfdOpen pid flags => CZ_pidfd_open SYS_pidfd_open pid flags
  | PidfdGetfd pidfd targetfd flags =>
      CZ_pidfd_getfd SYS_pidfd_getfd pidfd targetfd flags
  end.

(** A caller making the calls [cs] one after the other and collecting
    what they return. *)
Fixpoint session (cs : list call) : prog (list Z) :=
  match cs with
  | [] => mret []
  | c :: cs' => r ← invoke c; rs ← session cs'; mret (r :: rs)
  end.

(** A [prctl] request on the child-subreaper attribute. *)
Definition touches_subreaper (q : request) : bool :=
  match q with
  | Prctl opt _ => opt =? PR_SET_CHILD_SUBREAPER
  | Syscall _ _ => false
  end.

(** A [prctl] request that may take the child-subreaper mark away: the
    value passed for the attribute is 0, or none is passed at all. *)
Definition clears_subreaper (q : request) : bool :=
  match q with
  | Prctl opt [] => opt =? PR_SET_CHILD_SUBREAPER
  | Prctl opt (a :: _) => (opt =? PR_SET_CHILD_SUBREAPER) && (arg_value a =? 0)
  | Syscall _ _ => false
  end.

(** The kinds of request the shim has in its source. *)
Inductive shim_request : request -> Prop :=
| shim_pivot_root new_root put_old :
    shim_request (Syscall SYS_pivot_root [APtr new_root; APtr put_old])
| shim_set_sub_reaper :
    shim_request (Prctl PR_SET_CHILD_SUBREAPER [AInt 1])
| shim_pidfd_open pid flags :
    shim_request (Syscall SYS_pidfd_open [AInt pid; AUInt flags])
| shim_pidfd_getfd pidfd targetfd flags :
    shim_request
      (Syscall SYS_pidfd_getfd [AInt pidfd; AInt targetfd; AUInt flags]).

End Interface.

(** What the return convention of the descriptor-returning system calls
    allows: a descriptor number, or [-1]. *)
Definition fd_or_fail (r : Z) : Prop := r = -1 \/ 0 <= r <= INT_MAX.

(** A request after which a process marked as child subreaper is still
    marked, [subreaper] telling whether the calling process is. *)
Definition keeps_subreaper {World : Type}
    (kernel : request -> World -> Z * World) (subreaper : World -> bool)
    (q : request) : Prop :=
  forall w, subreaper w = true -> subreaper (snd (kernel q w)) = true.

(** ** syscall.h *)

Module Cpp.

Local Open Scope string_scope.

(** The replacement text of an object-like macro: nothing, text that
    stands for the integer constant [n], or any other text. *)
Inductive body : Type :=
| Empty
| Num (n : Z)
| Text (s : string).

Unset Elimination Schemes.
Inductive directive : Type :=
| Include (header : string)
| Define (name : string) (b : body)
| IfNDef (name : string) (block : list directive)
| Proto (fname : string).
Set Elimination Schemes.

Section Preprocess.

(** What reading a system header does to the macros defined so far. *)
Variable sys : string -> gmap string body -> gmap string body.

Fixpoint directive_exec (d : directive) (env : gmap string body)
  : gmap string body :=
  match d with
  | Include header => sys header env
  | Define name b => <[name := b]> env
  | IfNDef name block =>
      match env !! name with
      | Some _ => env
      | None => foldl (fun e d' => directive_exec d' e) env block
      end
  | Proto _ => env
  end.

Definition preprocess (ds : list directive) (env : gmap string body)
  : gmap string body :=
  foldl (fun e d => directive_exec d e) env ds.

End Preprocess.

Definition fallback_pidfd_open : directive :=
  IfNDef "SYS_pidfd_open" [Define "SYS_pidfd_open" (Num 434)].

Definition fallback_pidfd_getfd : directive :=
  IfNDef "SYS_pidfd_getfd" [Define "SYS_pidfd_getfd" (Num 438)].

Definition syscall_h : list directive :=
  [ IfNDef "__SYSCALL_H"
      [ Define "__SYSCALL_H" Empty;
        Include "sys/types.h";
        Proto "CZ_pivot_root";
        Proto "CZ_set_sub_reaper";
        fallback_pidfd_open;
        Proto "CZ_pidfd_open";
        fallback_pidfd_getfd;
        Proto "CZ_pidfd_getfd" ] ].

(** The preprocessing directives of [syscall.c], in order. *)
Definition syscall_c : list directive :=
  [ Include "sys/prctl.h"; Include "sys/syscall.h"; Include "unistd.h" ]
    ++ syscall_h.

(** The integer a macro name stands for, if it is defined as one. *)
Definition macro (env : gmap string body) (name : string) : option Z :=
  match env !! name with
  | Some (Num n) => Some n
  | _ => None
  end.

End Cpp.

(** ** A small kernel to run the shim against *)

(** Not part of the shim: a toy world and kernel on which the statements
    below are exercised.  The numbers are those of Linux on aarch64. *)
Module Toy.

Record toy_world : Type := ToyWorld {
  toy_errno : Z;
  toy_subreaper : bool;
  toy_live : list Z;
  toy_next_fd : Z
}.

Definition EPERM : Z := 1.
Definition ESRCH : Z := 3.
Definition EBADF : Z := 9.
Definition EINVAL : Z := 22.
Definition ENOSYS : Z := 38.

Definition fail (e : Z) (w : toy_world) : Z * toy_world :=
  (-1, ToyWorld e (toy_subreaper w) (toy_live w) (toy_next_fd w)).

Definition fresh_fd (w : toy_world) : Z * toy_world :=
  (toy_next_fd w,
   ToyWorld (toy_errno w) (toy_subreaper w) (toy_live w) (toy_next_fd w + 1)).

Definition toy_kernel (q : request) (w : toy_world) : Z * toy_world :=
  match q with
  | Prctl opt (a :: _) =>
      if opt =? 36 then
        (0, ToyWorld (toy_errno w) (negb (arg_value a =? 0))
                     (toy_live w) (toy_next_fd w))
      else fail EINVAL w
  | Prctl _ [] => fail EINVAL w
  | Syscall nr args =>
      if nr =? 41 then
        match args with
        | [APtr new_root; APtr put_old] =>
            if new_root =? 0 then fail EINVAL w else (0, w)
        | _ => fail EINVAL w
        end
      else if nr =? 434 then
        match args with
        | [AInt pid; AUInt flags] =>
            if bool_decide (pid ∈ toy_live w) && (flags =? 0)
            then fresh_fd w else fail ESRCH w
        | _ => fail EINVAL w
        end
      else if nr =? 438 then
        match args with
        | [AInt pidfd; AInt targetfd; AUInt flags] =>
            if (3 <=? pidfd) && (pidfd <? toy_next_fd w) && (0 <=? targetfd)
               && (flags =? 0)
            then fresh_fd w else fail EBADF w
        | _ => fail EINVAL w
        end
      else fail ENOSYS w
  end.

Definition toy_start : toy_world := ToyWorld 0 false [1; 7; 42] 3.

(** A C library without the two [pidfd] numbers: its headers define
    nothing the shim looks at. *)
Definition bare_libc (header : string) (env : gmap string Cpp.body)
  : gmap string Cpp.body := env.

End Toy.

(** ** syscall.c as a translation unit *)

Module Unit.

Local Open Scope string_scope.

(** The integers behind the four macro names used in the function bodies
    of [syscall.c]. *)
Record numbers : Type := Numbers {
  nr_pivot_root : Z;
  nr_child_subreaper : Z;
  nr_pidfd_open : Z;
  nr_pidfd_getfd : Z
}.

(** The function bodies compile only if each of the four names stands for
    an integer at that point. *)
Definition resolve (env : gmap string Cpp.body) : option numbers :=
  a ← Cpp.macro env "SYS_pivot_root";
  b ← Cpp.macro env "PR_SET_CHILD_SUBREAPER";
  c ← Cpp.macro env "SYS_pidfd_open";
  d ← Cpp.macro env "SYS_pidfd_getfd";
  Some (Numbers a b c d).

Definition link (ns : numbers) : call -> prog Z :=
  invoke (nr_pivot_root ns) (nr_child_subreaper ns)
         (nr_pidfd_open ns) (nr_pidfd_getfd ns).

(** [syscall.c] compiled against the system headers [sys], starting from
    the macros [env0] that are defined before its first line. *)
Definition syscall_c_unit
    (sys : string -> gmap string Cpp.body -> gmap string Cpp.body)
    (env0 : gmap string Cpp.body) : option (call -> prog Z) :=
  link <$> resolve (Cpp.preprocess sys Cpp.syscall_c env0).

(** A C library in the manner of musl: it has [SYS_pivot_root] and
    [PR_SET_CHILD_SUBREAPER] (aarch64 values) and neither [pidfd] number. *)
Definition small_libc (header : string) (env : gmap string Cpp.body)
  : gmap string Cpp.body :=
  if String.eqb header "sys/syscall.h" then
    <["SYS_pivot_root" := Cpp.Num 41]> env
  else if String.eqb header "sys/prctl.h" then
    <["PR_SET_CHILD_SUBREAPER" := Cpp.Num 36]> env
  else env.

End Unit.

(** ** The text of syscall.c *)

(** The functions of [syscall.c] once more, this time as the statements
    they are written with, in a fragment of C in which a function body
    can also read and assign variables declared at file scope.  Running a
    body threads the values of those variables ([store]) beside the
    requests it puts to the kernel. *)
Module Source.

Local Open Scope string_scope.

(** The types of objects: [int] (and [pid_t]), [unsigned int] and
    [const char *]. *)
Inductive vtype : Type := VInt | VUInt | VPtr.

(** The type of an expression: that of an object, or [long]. *)
Inductive ctype : Type := CV (t : vtype) | CLong.

(** The library functions called: [long syscall(long, ...)] and
    [int prctl(int, ...)]. *)
Inductive libfn : Type := Fsyscall | Fprctl.

Inductive expr : Type :=
| EConst (z : Z)
| EMacro (m : string)
| EId (x : string).

Inductive rhs : Type :=
| RExpr (e : expr)
| RCall (f : libfn) (first : expr) (rest : list expr).

Inductive stmt : Type :=
| SReturn (r : rhs)
| SAssign (x : string) (r : rhs) (next : stmt).

(** A function definition; every function of the file returns [int]. *)
Record fundef : Type := FunDef {
  f_name : string;
  f_params : list (vtype * string);
  f_body : stmt
}.

(** What a file declares at file scope. *)
Inductive item : Type :=
| IVar (t : vtype) (x : string)
| IFun (fd : fundef).

Definition CZ_pivot_root_src : fundef :=
  FunDef "CZ_pivot_root" [(VPtr, "new_root"); (VPtr, "put_old")]
    (SReturn (RCall Fsyscall (EMacro "SYS_pivot_root")
                [EId "new_root"; EId "put_old"])).

Definition CZ_set_sub_reaper_src : fundef :=
  FunDef "CZ_set_sub_reaper" []
    (SReturn (RCall Fprctl (EMacro "PR_SET_CHILD_SUBREAPER") [EConst 1])).

Definition CZ_pidfd_open_src : fundef :=
  FunDef "CZ_pidfd_open" [(VInt, "pid"); (VUInt, "flags")]
    (SReturn (RCall Fsyscall (EMacro "SYS_pidfd_open")
                [EId "pid"; EId "flags"])).

Definition CZ_pidfd_getfd_src : fundef :=
  FunDef "CZ_pidfd_getfd"
    [(VInt, "pidfd"); (VInt, "targetfd"); (VUInt, "flags")]
    (SReturn (RCall Fsyscall (EMacro "SYS_pidfd_getfd")
                [EId "pidfd"; EId "targetfd"; EId "flags"])).

(** The declarations of [syscall.c]; its header adds prototypes only. *)
Definition syscall_c_items : list item :=
  [ IFun CZ_pivot_root_src; IFun CZ_set_sub_reaper_src;
    IFun CZ_pidfd_open_src; IFun CZ_pidfd_getfd_src ].

(** *** What a body mentions *)

Definition declared_vars (items : list item) : list string :=
  flat_map (fun it => match it with IVar _ x => [x] | IFun _ => [] end) items.

Definition expr_ids (e : expr) : list string :=
  match e with
  | EId x => [x]
  | EConst _ | EMacro _ => []
  end.

Definition rhs_ids (r : rhs) : list string :=
  match r with
  | RExpr e => expr_ids e
  | RCall _ first rest => expr_ids first ++ flat_map expr_ids rest
  end.

(** The identifiers a statement reads or assigns. *)
Fixpoint stmt_ids (s : stmt) : list string :=
  match s with
  | SReturn r => rhs_ids r
  | SAssign x r next => x :: rhs_ids r ++ stmt_ids next
  end.

(** The identifiers of a body that are not parameters of the function:
    the variables at file scope that it reads or assigns. *)
Definition globals_used (fd : fundef) : list string :=
  filter (fun x => x ∉ (f_params fd).*2) (stmt_ids (f_body fd)).

(** *** Running a body *)

Definition typed (t : vtype) (z : Z) : carg :=
  match t with
  | VInt => AInt z
  | VUInt => AUInt z
  | VPtr => APtr z
  end.

Definition type_of (a : carg) : vtype :=
  match a with
  | AInt _ => VInt
  | AUInt _ => VUInt
  | APtr _ => VPtr
  end.

(** Conversion to [int]: an [int] is kept, anything wider or unsigned
    wraps around. *)
Definition to_int (from : ctype) (z : Z) : Z :=
  match from with
  | CV VInt => z
  | _ => int_of_long z
  end.

Definition convert (to : vtype) (from : ctype) (z : Z) : Z :=
  match to with
  | VInt => to_int from z
  | VUInt => z mod 2 ^ 32
  | VPtr => z mod 2 ^ 64
  end.

Section Semantics.

(** The integer each macro name stands for after preprocessing. *)
Variable macro_value : string -> Z.

(** The declarations of the file the body belongs to. *)
Variable items : list item.

(** The declared type of a variable at file scope. *)
Definition var_type (x : string) : vtype :=
  default VInt
    (head (flat_map
             (fun it => match it with
                        | IVar t y => if String.eqb x y then [t] else []
                        | IFun _ => []
                        end)
             items)).

(** An identifier is a parameter of the function or else a variable at
    file scope, which is zero until it is assigned. *)
Definition eval_expr (locals : gmap string carg) (g : gmap string Z)
    (e : expr) : carg :=
  match e with
  | EConst z => AInt z
  | EMacro m => AInt (macro_value m)
  | EId x =>
      match locals !! x with
      | Some v => v
      | None => typed (var_type x) (default 0 (g !! x))
      end
  end.

Definition eval_rhs (locals : gmap string carg) (g : gmap string Z)
    (r : rhs) : prog (ctype * Z) :=
  match r with
  | RExpr e =>
      mret (CV (type_of (eval_expr locals g e)),
            arg_value (eval_expr locals g e))
  | RCall Fsyscall first rest =>
      a ← syscall (arg_value (eval_expr locals g first))
                  (map (eval_expr locals g) rest);
      mret (CLong, a)
  | RCall Fprctl first rest =>
      a ← prctl (arg_value (eval_expr locals g first))
                (map (eval_expr locals g) rest);
      mret (CV VInt, a)
  end.

(** A body returns its value and the file-scope variables as it leaves
    them. *)
Fixpoint exec_stmt (s : stmt) (locals : gmap string carg)
    (g : gmap string Z) : prog (Z * gmap string Z) :=
  match s with
  | SReturn r =>
      v ← eval_rhs locals g r;
      mret (to_int (fst v) (snd v), g)
  | SAssign x r next =>
      v ← eval_rhs locals g r;
      match locals !! x with
      | Some old =>
          exec_stmt next
            (<[x := typed (type_of old)
                          (convert (type_of old) (fst v) (snd v))]> locals)
            g
      | None =>
          exec_stmt next locals
            (<[x := convert (var_type x) (fst v) (snd v)]> g)
      end
  end.

Definition bind_params (ps : list (vtype * string)) (args : list Z)
  : gmap string carg :=
  list_to_map (zip_with (fun p a => (snd p, typed (fst p) a)) ps args).

Definition call_fun (fd : fundef) (args : list Z) (g : gmap string Z)
  : prog (Z * gmap string Z) :=
  exec_stmt (f_body fd) (bind_params (f_params fd) args) g.

End Semantics.

(** The function a call of the interface enters, and its arguments. *)
Definition source_of (c : call) : fundef * list Z :=
  match c with
  | PivotRoot new_root put_old => (CZ_pivot_root_src, [new_root; put_old])
  | SetSubReaper => (CZ_set_sub_reaper_src, [])
  | PidfdOpen pid flags => (CZ_pidfd_open_src, [pid; flags])
  | PidfdGetfd pidfd targetfd flags =>
      (CZ_pidfd_getfd_src, [pidfd; targetfd; flags])
  end.

Definition run_call (macro_value : string -> Z) (c : call)
    (g : gmap string Z) : prog (Z * gmap string Z) :=
  call_fun macro_value syscall_c_items (fst (source_of c)) (snd (source_of c)) g.

(** Calls made one after the other, each starting from the file-scope
    variables as the one before left them. *)
Fixpoint run_calls (macro_value : string -> Z) (cs : list call)
    (g : gmap string Z) : prog (list Z * gmap string Z) :=
  match cs with
  | [] => mret ([], g)
  | c :: cs' =>
      v ← run_call macro_value c g;
      vs ← run_calls macro_value cs' (snd v);
      mret (fst v :: fst vs, snd vs)
  end.

(** The numbers [syscall.c] gets when compiled against [Unit.small_libc]. *)
Definition small_libc_value (m : string) : Z :=
  default 0
    (Cpp.macro (Cpp.preprocess Unit.small_libc Cpp.syscall_c ∅) m).

End Source.

(** * Properties *)

(** ** Conversions *)

Section Conversions.

Lemma int_of_long_range z : in_int (int_of_long z).
Proof.
  unfold in_int, int_of_long, INT_MIN, INT_MAX.
  pose proof (Z.mod_pos_bound (z + 2 ^ 31) (2 ^ 32)). lia.
Qed.

Lemma int_of_long_id z : in_int z -> int_of_long z = z.
Proof.
  unfold in_int, int_of_long, INT_MIN, INT_MAX. intros Hz.
  rewrite Z.mod_small; lia.
Qed.

Lemma int_of_long_congr z : int_of_long z mod 2 ^ 32 = z mod 2 ^ 32.
Proof.
  unfold int_of_long.
  rewrite Zminus_mod_idemp_l.
  f_equal. lia.
Qed.

Lemma in_int_fd_or_fail r : fd_or_fail r -> in_int r.
Proof. unfold fd_or_fail, in_int, INT_MIN, INT_MAX. lia. Qed.

End Conversions.

(** ** Running the four functions *)

Section Run.

Context {World : Type}.
Variable kernel : request -> World -> Z * World.

(** The process-wide error code, as the caller reads it off the world. *)
Variable errno : World -> Z.

Variables SYS_pivot_root PR_SET_CHILD_SUBREAPER : Z.
Variables SYS_pidfd_open SYS_pidfd_getfd : Z.

Lemma exec_bind {A B : Type} (p : prog A) (f : A -> prog B) (w : World) :
  exec kernel (p ≫= f) w =
  Outcome (result (exec kernel (f (result (exec kernel p w)))
                        (world (exec kernel p w))))
          (world (exec kernel (f (result (exec kernel p w)))
                       (world (exec kernel p w))))
          (trace (exec kernel p w) ++
           trace (exec kernel (f (result (exec kernel p w)))
                       (world (exec kernel p w)))).
Proof.
  revert w. induction p as [a | q k IH]; intros w.
  - cbn. by destruct (exec kernel (f a) w).
  - change (Request q k ≫= f) with (Request q (fun r => k r ≫= f)).
    cbn. rewrite IH. reflexivity.
Qed.

Lemma exec_CZ_pivot_root new_root put_old w :
  exec kernel (CZ_pivot_root SYS_pivot_root new_root put_old) w =
  let q := Syscall SYS_pivot_root [APtr new_root; APtr put_old] in
  Outcome (int_of_long (fst (kernel q w))) (snd (kernel q w))
          [(q, fst (kernel q w))].
Proof. reflexivity. Qed.

Lemma exec_CZ_set_sub_reaper w :
  exec kernel (CZ_set_sub_reaper PR_SET_CHILD_SUBREAPER) w =
  let q := Prctl PR_SET_CHILD_SUBREAPER [AInt 1] in
  Outcome (fst (kernel q w)) (snd (kernel q w)) [(q, fst (kernel q w))].
Proof. reflexivity. Qed.

Lemma exec_CZ_pidfd_open pid flags w :
  exec kernel (CZ_pidfd_open SYS_pidfd_open pid flags) w =
  let q := Syscall SYS_pidfd_open [AInt pid; AUInt flags] in
  Outcome (int_of_long (fst (kernel q w))) (snd (kernel q w))
          [(q, fst (kernel q w))].
Proof. reflexivity. Qed.

Lemma exec_CZ_pidfd_getfd pidfd targetfd flags w :
  exec kernel (CZ_pidfd_getfd SYS_pidfd_getfd pidfd targetfd flags) w =
  let q := Syscall SYS_pidfd_getfd [AInt pidfd; AInt targetfd; AUInt flags] in
  Outcome (int_of_long (fst (kernel q w))) (snd (kernel q w))
          [(q, fst (kernel q w))].
Proof. reflexivity. Qed.

(** C1. For every [new_root] and [put_old], [CZ_pivot_root] issues the one
    request [syscall(SYS_pivot_root, new_root, put_old)], both arguments
    as given and in that order, whatever they are; it leaves the world,
    and with it the error code, as the kernel left it; and it returns the
    kernel's answer: 0 when the kernel answers 0, -1 when it answers -1,
    and any answer that fits an [int] unchanged. *)
Theorem CZ_pivot_root_pass_through (new_root put_old : Z) (w : World) :
  let q := Syscall SYS_pivot_root [APtr new_root; APtr put_old] in
  let r := fst (kernel q w) in
  let o := exec kernel (CZ_pivot_root SYS_pivot_root new_root put_old) w in
  trace o = [(q, r)] /\
  world o = snd (kernel q w) /\
  errno (world o) = errno (snd (kernel q w)) /\
  (r = 0 -> result o = 0) /\
  (r = -1 -> result o = -1) /\
  (in_int r -> result o = r).
Proof.
  intros q r o. subst o. rewrite exec_CZ_pivot_root. cbn.
  fold q; fold r.
  do 3 (split; [reflexivity |]).
  split; [by intros -> |].
  split; [by intros -> |].
  apply int_of_long_id.
Qed.

(** C2. [CZ_set_sub_reaper] has no parameter; it issues the one request
    [prctl(PR_SET_CHILD_SUBREAPER, 1)], a request on the child-subreaper
    attribute that sets it, and returns what the kernel answers to it, so
    0 on success and -1 on failure, leaving the world as the kernel left
    it. *)
Theorem CZ_set_sub_reaper_request (w : World) :
  let q := Prctl PR_SET_CHILD_SUBREAPER [AInt 1] in
  exec kernel (CZ_set_sub_reaper PR_SET_CHILD_SUBREAPER) w =
    Outcome (fst (kernel q w)) (snd (kernel q w)) [(q, fst (kernel q w))] /\
  touches_subreaper PR_SET_CHILD_SUBREAPER q = true /\
  clears_subreaper PR_SET_CHILD_SUBREAPER q = false.
Proof.
  intros q. split; [apply exec_CZ_set_sub_reaper |].
  cbn. by rewrite Z.eqb_refl.
Qed.

(** C3. For every [pid] and [flags], [CZ_pidfd_open] issues the one
    request [syscall(SYS_pidfd_open, pid, flags)] and nothing else, and it
    leaves the world as the kernel left it.  When the kernel answers as
    the system call is documented to, with a descriptor number or with
    -1, the caller receives that very answer: either a non-negative
    descriptor, or -1 together with the error code the kernel left.
    There is no other outcome. *)
Theorem CZ_pidfd_open_outcomes (pid flags : Z) (w : World) :
  let q := Syscall SYS_pidfd_open [AInt pid; AUInt flags] in
  let r := fst (kernel q w) in
  let o := exec kernel (CZ_pidfd_open SYS_pidfd_open pid flags) w in
  trace o = [(q, r)] /\
  world o = snd (kernel q w) /\
  (fd_or_fail r ->
   result o = r /\
   ((0 <= r /\ 0 <= result o <= INT_MAX) \/
    (r = -1 /\ result o = -1 /\ errno (world o) = errno (snd (kernel q w))))).
Proof.
  intros q r o. subst o. rewrite exec_CZ_pidfd_open. cbn.
  fold q; fold r.
  do 2 (split; [reflexivity |]).
  intros Hr.
  rewrite (int_of_long_id r (in_int_fd_or_fail r Hr)).
  split; [reflexivity |].
  destruct Hr as [-> | Hr]; [right | left]; repeat split; lia.
Qed.

(** C4. For every [pidfd], [targetfd] and [flags], [CZ_pidfd_getfd] issues
    the one request [syscall(SYS_pidfd_getfd, pidfd, targetfd, flags)],
    the three arguments as given.  Whatever the kernel answers, the run
    ends after that single request: a failure, the exit race included, is
    not retried.  When the kernel answers with a descriptor number or with
    -1, the caller receives that very answer: a non-negative descriptor,
    or -1 together with the error code the kernel left. *)
Theorem CZ_pidfd_getfd_outcomes (pidfd targetfd flags : Z) (w : World) :
  let q := Syscall SYS_pidfd_getfd [AInt pidfd; AInt targetfd; AUInt flags] in
  let r := fst (kernel q w) in
  let o := exec kernel (CZ_pidfd_getfd SYS_pidfd_getfd pidfd targetfd flags) w in
  trace o = [(q, r)] /\
  world o = snd (kernel q w) /\
  (fd_or_fail r ->
   result o = r /\
   ((0 <= r /\ 0 <= result o <= INT_MAX) \/
    (r = -1 /\ result o = -1 /\ errno (world o) = errno (snd (kernel q w))))).
Proof.
  intros q r o. subst o. rewrite exec_CZ_pidfd_getfd. cbn.
  fold q; fold r.
  do 2 (split; [reflexivity |]).
  intros Hr.
  rewrite (int_of_long_id r (in_int_fd_or_fail r Hr)).
  split; [reflexivity |].
  destruct Hr as [-> | Hr]; [right | left]; repeat split; lia.
Qed.

End Run.

(** ** The fallback numbers of syscall.h *)

Section Header.

Import Cpp.
Local Open Scope string_scope.

Variable sys : string -> gmap string body -> gmap string body.

Lemma ifndef_define_lookup name n (env : gmap string body) :
  directive_exec sys (IfNDef name [Define name (Num n)]) env !! name =
  Some (default (Num n) (env !! name)).
Proof.
  cbn [directive_exec]. destruct (env !! name) as [b|] eqn:E; cbn.
  - done.
  - by rewrite lookup_insert_eq.
Qed.

Lemma ifndef_define_other name n other (env : gmap string body) :
  name ≠ other ->
  directive_exec sys (IfNDef name [Define name (Num n)]) env !! other =
  env !! other.
Proof.
  intros Hne. cbn [directive_exec]. destruct (env !! name) as [b|] eqn:E; cbn.
  - done.
  - by rewrite lookup_insert_ne.
Qed.

(** On its first inclusion the header comes down to its two fallback
    blocks, read after [<sys/types.h>]. *)
Lemma preprocess_syscall_h (env : gmap string body) :
  env !! "__SYSCALL_H" = None ->
  preprocess sys syscall_h env =
  directive_exec sys fallback_pidfd_getfd
    (directive_exec sys fallback_pidfd_open
       (sys "sys/types.h" (<["__SYSCALL_H" := Empty]> env))).
Proof.
  intros Hguard. unfold preprocess, syscall_h.
  cbn [foldl directive_exec]. by rewrite Hguard.
Qed.

(** In [syscall.c] the header is read after the three system headers. *)
Lemma preprocess_syscall_c (env : gmap string body) :
  preprocess sys syscall_c env =
  preprocess sys syscall_h
    (sys "unistd.h" (sys "sys/syscall.h" (sys "sys/prctl.h" env))).
Proof. reflexivity. Qed.

(** C5. When the header is read (its include guard not yet defined), let
    [seen] be the macros defined at the point of the two fallback blocks,
    that is, whatever the C library's headers have defined.  If [seen]
    does not define [SYS_pidfd_open], the header defines it as 434; if it
    does, that definition stays.  Likewise [SYS_pidfd_getfd] and 438. *)
Theorem syscall_h_fallback_numbers (env : gmap string body) :
  env !! "__SYSCALL_H" = None ->
  let seen := sys "sys/types.h" (<["__SYSCALL_H" := Empty]> env) in
  let after := preprocess sys syscall_h env in
  (seen !! "SYS_pidfd_open" = None ->
   after !! "SYS_pidfd_open" = Some (Num 434) /\
   macro after "SYS_pidfd_open" = Some 434) /\
  (forall b, seen !! "SYS_pidfd_open" = Some b ->
             after !! "SYS_pidfd_open" = Some b) /\
  (seen !! "SYS_pidfd_getfd" = None ->
   after !! "SYS_pidfd_getfd" = Some (Num 438) /\
   macro after "SYS_pidfd_getfd" = Some 438) /\
  (forall b, seen !! "SYS_pidfd_getfd" = Some b ->
             after !! "SYS_pidfd_getfd" = Some b).
Proof.
  intros Hguard seen after.
  assert (Hopen : after !! "SYS_pidfd_open" =
                  Some (default (Num 434) (seen !! "SYS_pidfd_open"))).
  { subst after. rewrite preprocess_syscall_h by done.
    unfold fallback_pidfd_getfd. rewrite ifndef_define_other by done.
    apply ifndef_define_lookup. }
  assert (Hgetfd : after !! "SYS_pidfd_getfd" =
                   Some (default (Num 438) (seen !! "SYS_pidfd_getfd"))).
  { subst after. rewrite preprocess_syscall_h by done.
    unfold fallback_pidfd_getfd. rewrite ifndef_define_lookup.
    unfold fallback_pidfd_open. by rewrite ifndef_define_other. }
  unfold macro. rewrite Hopen, Hgetfd.
  split; [| split; [| split]].
  - by intros ->.
  - by intros b ->.
  - by intros ->.
  - by intros b ->.
Qed.

End Header.

(** ** The shim as a whole *)

Section Shim.

Context {World : Type}.
Variable kernel : request -> World -> Z * World.
Variable errno : World -> Z.

(** Whether the calling process is marked as a child subreaper. *)
Variable subreaper : World -> bool.

Variables SYS_pivot_root PR_SET_CHILD_SUBREAPER : Z.
Variables SYS_pidfd_open SYS_pidfd_getfd : Z.

Local Abbreviation invoke' :=
  (invoke SYS_pivot_root PR_SET_CHILD_SUBREAPER SYS_pidfd_open SYS_pidfd_getfd).
Local Abbreviation session' :=
  (session SYS_pivot_root PR_SET_CHILD_SUBREAPER SYS_pidfd_open SYS_pidfd_getfd).
Local Abbreviation shim_request' :=
  (shim_request SYS_pivot_root PR_SET_CHILD_SUBREAPER
                SYS_pidfd_open SYS_pidfd_getfd).
Local Abbreviation keeps_subreaper' := (keeps_subreaper kernel subreaper).

(** Every call is one request followed by a return of the answer, which is
    narrowed to [int] where it came as a [long]. *)
Lemma invoke_shape (c : call) :
  exists q f,
    invoke' c = Request q (fun r => Return (f r)) /\
    shim_request' q /\
    (f = int_of_long \/ f = (fun r => r)).
Proof.
  destruct c; eexists _, _; (split; [reflexivity |]);
    (split; [constructor | auto]).
Qed.

Lemma exec_invoke (c : call) (w : World) :
  exists q f,
    exec kernel (invoke' c) w =
      Outcome (f (fst (kernel q w))) (snd (kernel q w))
              [(q, fst (kernel q w))] /\
    shim_request' q /\
    (f = int_of_long \/ f = (fun r => r)).
Proof.
  destruct (invoke_shape c) as (q & f & -> & Hq & Hf).
  by exists q, f.
Qed.

Lemma exec_session_nil (w : World) :
  exec kernel (session' []) w = Outcome [] w [].
Proof. reflexivity. Qed.

Lemma exec_session_cons (c : call) (cs : list call) (w : World) :
  exec kernel (session' (c :: cs)) w =
  Outcome
    (result (exec kernel (invoke' c) w) ::
     result (exec kernel (session' cs) (world (exec kernel (invoke' c) w))))
    (world (exec kernel (session' cs) (world (exec kernel (invoke' c) w))))
    (trace (exec kernel (invoke' c) w) ++
     trace (exec kernel (session' cs) (world (exec kernel (invoke' c) w)))).
Proof.
  cbn [session]. rewrite !exec_bind. cbn. by rewrite app_nil_r.
Qed.

Lemma exec_session_app (cs1 cs2 : list call) (w : World) :
  world (exec kernel (session' (cs1 ++ cs2)) w) =
  world (exec kernel (session' cs2) (world (exec kernel (session' cs1) w))).
Proof.
  revert w. induction cs1 as [| c cs1 IH]; intros w.
  - reflexivity.
  - rewrite <- app_comm_cons, !exec_session_cons. cbn. apply IH.
Qed.

Lemma shim_request_not_clearing (q : request) :
  shim_request' q -> clears_subreaper PR_SET_CHILD_SUBREAPER q = false.
Proof.
  destruct 1; cbn; try reflexivity. apply andb_false_r.
Qed.

Lemma shim_request_touching (q : request) :
  shim_request' q ->
  touches_subreaper PR_SET_CHILD_SUBREAPER q = true ->
  q = Prctl PR_SET_CHILD_SUBREAPER [AInt 1].
Proof. destruct 1; cbn; intros; congruence. Qed.

Lemma session_trace_shim (cs : list call) (w : World) :
  Forall (fun e => shim_request' (fst e)) (trace (exec kernel (session' cs) w)).
Proof.
  revert w. induction cs as [| c cs IH]; intros w.
  - constructor.
  - rewrite exec_session_cons. cbn. apply Forall_app. split; [| apply IH].
    destruct (exec_invoke c w) as (q & f & -> & Hq & _). cbn.
    by repeat constructor.
Qed.

Lemma session_trace_length (cs : list call) (w : World) :
  length (trace (exec kernel (session' cs) w)) = length cs.
Proof.
  revert w. induction cs as [| c cs IH]; intros w.
  - reflexivity.
  - rewrite exec_session_cons. cbn. rewrite length_app, IH.
    by destruct (exec_invoke c w) as (q & f & -> & _).
Qed.

(** C6. Every call, whatever its arguments, puts exactly one request to
    the kernel and ends with the world as the kernel left it.  When the
    kernel answers -1 the call returns -1 and the error code is the one
    the kernel left; and when the kernel's answer fits an [int], the call
    returns -1 only then. *)
Theorem failure_is_the_kernels (c : call) (w : World) :
  let o := exec kernel (invoke' c) w in
  exists q,
    shim_request' q /\
    trace o = [(q, fst (kernel q w))] /\
    world o = snd (kernel q w) /\
    (fst (kernel q w) = -1 ->
     result o = -1 /\ errno (world o) = errno (snd (kernel q w))) /\
    (in_int (fst (kernel q w)) ->
     (result o = -1 <-> fst (kernel q w) = -1)).
Proof.
  intros o. subst o.
  destruct (exec_invoke c w) as (q & f & -> & Hq & Hf).
  exists q. cbn. do 3 (split; [done |]). split.
  - intros Hr. rewrite Hr. split; [| done].
    by destruct Hf as [-> | ->].
  - intros Hin.
    assert (Hsame : f (fst (kernel q w)) = fst (kernel q w)).
    { destruct Hf as [-> | ->]; [by apply int_of_long_id | done]. }
    rewrite Hsame. done.
Qed.

(** C8. In every sequence of calls, no request put to the kernel is a
    [prctl] that may clear the child-subreaper mark, and the only [prctl]
    on that attribute is [prctl(PR_SET_CHILD_SUBREAPER, 1)].  Hence, for
    a kernel in which the three system calls of the shim leave the mark
    alone and setting the attribute to a non-zero value keeps it, a mark
    that is set at some point of the sequence is still set at its end. *)
Theorem subreaper_never_cleared (cs1 cs2 : list call) (w : World) :
  let o := exec kernel (session' (cs1 ++ cs2)) w in
  Forall (fun e => clears_subreaper PR_SET_CHILD_SUBREAPER (fst e) = false)
         (trace o) /\
  Forall (fun e => touches_subreaper PR_SET_CHILD_SUBREAPER (fst e) = true ->
                   fst e = Prctl PR_SET_CHILD_SUBREAPER [AInt 1])
         (trace o) /\
  ((forall args, keeps_subreaper' (Syscall SYS_pivot_root args)) ->
   (forall args, keeps_subreaper' (Syscall SYS_pidfd_open args)) ->
   (forall args, keeps_subreaper' (Syscall SYS_pidfd_getfd args)) ->
   (forall v rest, v <> 0 ->
      keeps_subreaper' (Prctl PR_SET_CHILD_SUBREAPER (AInt v :: rest))) ->
   subreaper (world (exec kernel (session' cs1) w)) = true ->
   subreaper (world o) = true).
Proof.
  intros o. subst o. split; [| split].
  - eapply Forall_impl; [apply session_trace_shim |].
    intros e. apply shim_request_not_clearing.
  - eapply Forall_impl; [apply session_trace_shim |].
    intros e. apply shim_request_touching.
  - intros Hpivot Hopen Hgetfd Hset.
    rewrite exec_session_app.
    generalize (world (exec kernel (session' cs1) w)) as w1.
    induction cs2 as [| c cs2 IH]; intros w1 Hw1.
    + done.
    + rewrite exec_session_cons. cbn. apply IH.
      destruct (exec_invoke c w1) as (q & f & -> & Hq & _). cbn.
      destruct Hq.
      * by apply Hpivot.
      * by apply Hset.
      * by apply Hopen.
      * by apply Hgetfd.
Qed.

(** C9. Each of the four functions puts exactly one request to the
    kernel, made of the caller's values as given, and ends with the world
    exactly as the kernel left it after that request; so a sequence of
    calls issues as many requests as it has calls. *)
Theorem one_request_per_call
    (new_root put_old pid oflags pidfd targetfd gflags : Z)
    (cs : list call) (w : World) :
  (let q := Syscall SYS_pivot_root [APtr new_root; APtr put_old] in
   let o := exec kernel (CZ_pivot_root SYS_pivot_root new_root put_old) w in
   trace o = [(q, fst (kernel q w))] /\ world o = snd (kernel q w)) /\
  (let q := Prctl PR_SET_CHILD_SUBREAPER [AInt 1] in
   let o := exec kernel (CZ_set_sub_reaper PR_SET_CHILD_SUBREAPER) w in
   trace o = [(q, fst (kernel q w))] /\ world o = snd (kernel q w)) /\
  (let q := Syscall SYS_pidfd_open [AInt pid; AUInt oflags] in
   let o := exec kernel (CZ_pidfd_open SYS_pidfd_open pid oflags) w in
   trace o = [(q, fst (kernel q w))] /\ world o = snd (kernel q w)) /\
  (let q := Syscall SYS_pidfd_getfd
              [AInt pidfd; AInt targetfd; AUInt gflags] in
   let o := exec kernel
              (CZ_pidfd_getfd SYS_pidfd_getfd pidfd targetfd gflags) w in
   trace o = [(q, fst (kernel q w))] /\ world o = snd (kernel q w)) /\
  length (trace (exec kernel (session' cs) w)) = length cs.
Proof.
  repeat split. apply session_trace_length.
Qed.

(** C10. The three functions built on [syscall] return the kernel's
    [long] answer converted to [int]: a value in the [int] range that
    agrees with the answer modulo [2^32], and the answer itself whenever
    it is representable in [int], as 0, -1 and every descriptor number
    are. *)
Theorem wrappers_narrow_to_int
    (new_root put_old pid oflags pidfd targetfd gflags : Z) (w : World) :
  let narrowed (q : request) (o : outcome Z World) :=
    result o = int_of_long (fst (kernel q w)) /\
    in_int (result o) /\
    result o mod 2 ^ 32 = fst (kernel q w) mod 2 ^ 32 /\
    (in_int (fst (kernel q w)) -> result o = fst (kernel q w)) in
  narrowed (Syscall SYS_pivot_root [APtr new_root; APtr put_old])
    (exec kernel (CZ_pivot_root SYS_pivot_root new_root put_old) w) /\
  narrowed (Syscall SYS_pidfd_open [AInt pid; AUInt oflags])
    (exec kernel (CZ_pidfd_open SYS_pidfd_open pid oflags) w) /\
  narrowed (Syscall SYS_pidfd_getfd [AInt pidfd; AInt targetfd; AUInt gflags])
    (exec kernel (CZ_pidfd_getfd SYS_pidfd_getfd pidfd targetfd gflags) w) /\
  in_int 0 /\ in_int (-1) /\ (forall fd, 0 <= fd <= INT_MAX -> in_int fd).
Proof.
  intros narrowed. subst narrowed. cbn beta.
  rewrite exec_CZ_pivot_root, exec_CZ_pidfd_open, exec_CZ_pidfd_getfd. cbn.
  repeat split;
    try apply int_of_long_range; try apply int_of_long_congr;
    try apply int_of_long_id;
    unfold in_int, INT_MIN, INT_MAX in *; lia.
Qed.

End Shim.

(** ** No state across calls *)

Section Stateless.

Import Source.
Local Open Scope string_scope.

Context {W1 W2 : Type}.
Variable k1 : request -> W1 -> Z * W1.
Variable k2 : request -> W2 -> Z * W2.

Variable macro_value : string -> Z.

Local Abbreviation invoke' :=
  (invoke (macro_value "SYS_pivot_root")
          (macro_value "PR_SET_CHILD_SUBREAPER")
          (macro_value "SYS_pidfd_open")
          (macro_value "SYS_pidfd_getfd")).

(** Run from the text of [syscall.c], a call is the request tree of the
    function of the same name, and the file-scope variables come out as
    they went in. *)
Lemma run_call_invoke (c : call) (g : gmap string Z) :
  run_call macro_value c g = (r ← invoke' c; mret (r, g)).
Proof. destruct c; reflexivity. Qed.

Lemma run_call_shape (c : call) :
  exists q f,
    shim_request (macro_value "SYS_pivot_root")
                 (macro_value "PR_SET_CHILD_SUBREAPER")
                 (macro_value "SYS_pidfd_open")
                 (macro_value "SYS_pidfd_getfd") q /\
    forall g : gmap string Z,
      run_call macro_value c g = Request q (fun r => Return (f r, g)).
Proof.
  destruct (invoke_shape (macro_value "SYS_pivot_root")
              (macro_value "PR_SET_CHILD_SUBREAPER")
              (macro_value "SYS_pidfd_open")
              (macro_value "SYS_pidfd_getfd") c) as (q & f & Hc & Hq & _).
  exists q, f. split; [exact Hq |].
  intros g. rewrite run_call_invoke, Hc. reflexivity.
Qed.

Lemma run_calls_store {W : Type} (k : request -> W -> Z * W)
    (cs : list call) (g : gmap string Z) (w : W) :
  snd (result (exec k (run_calls macro_value cs g) w)) = g.
Proof.
  revert w. induction cs as [| c cs IH]; intros w; [reflexivity |].
  cbn [run_calls]. rewrite !exec_bind. cbn [result world].
  destruct (run_call_shape c) as (q & f & _ & ->). cbn.
  apply IH.
Qed.

(** C7. [syscall.c] declares no variable at file scope, and the body of
    each of its functions mentions no identifier besides its own
    parameters.  So, whatever values file-scope variables might hold, a
    call is the same request tree and hands those values back untouched,
    also at the end of any sequence of calls.  Take then the same call in
    two runs that may differ in the kernel, the world, the calls made
    before and the values of file-scope variables: both runs put the
    same request to the kernel, and if the kernel's answers are equal the
    two calls return the same value. *)
Theorem shim_keeps_no_state
    (before1 before2 : list call) (c : call)
    (g1 g2 : gmap string Z) (w1 : W1) (w2 : W2) :
  declared_vars syscall_c_items = [] /\
  globals_used (fst (source_of c)) = [] /\
  run_call macro_value c g1 = (r ← invoke' c; mret (r, g1)) /\
  let h1 := exec k1 (run_calls macro_value before1 g1) w1 in
  let h2 := exec k2 (run_calls macro_value before2 g2) w2 in
  let o1 := exec k1 (run_call macro_value c (snd (result h1))) (world h1) in
  let o2 := exec k2 (run_call macro_value c (snd (result h2))) (world h2) in
  snd (result h1) = g1 /\
  snd (result o1) = g1 /\
  map fst (trace o1) = map fst (trace o2) /\
  (map snd (trace o1) = map snd (trace o2) ->
   fst (result o1) = fst (result o2)).
Proof.
  split; [reflexivity |].
  split; [by destruct c |].
  split; [apply run_call_invoke |].
  cbv zeta. rewrite !run_calls_store.
  split; [reflexivity |].
  destruct (run_call_shape c) as (q & f & _ & Hrun).
  rewrite !Hrun. cbn.
  split; [reflexivity |].
  split; [reflexivity |].
  by intros [= ->].
Qed.

End Stateless.

(** ** The statements at work on the toy kernel *)

Section Exercise.

Import Toy.
Local Open Scope string_scope.

Lemma toy_keeps_syscall (nr : Z) (args : list carg) :
  keeps_subreaper toy_kernel toy_subreaper (Syscall nr args).
Proof.
  intros w Hw. unfold toy_kernel, fail, fresh_fd.
  repeat case_match; cbn; done.
Qed.

Lemma toy_keeps_set (v : Z) (rest : list carg) :
  v <> 0 -> keeps_subreaper toy_kernel toy_subreaper (Prctl 36 (AInt v :: rest)).
Proof.
  intros Hv w Hw. cbn. apply negb_true_iff, Z.eqb_neq, Hv.
Qed.

Lemma CZ_pivot_root_pass_through_witness :
  (fst (toy_kernel (Syscall 41 [APtr 4096; APtr 8192]) toy_start) = 0 /\
   result (exec toy_kernel (CZ_pivot_root 41 4096 8192) toy_start) = 0) /\
  (fst (toy_kernel (Syscall 41 [APtr 0; APtr 8192]) toy_start) = -1 /\
   result (exec toy_kernel (CZ_pivot_root 41 0 8192) toy_start) = -1).
Proof.
  split; (split; [reflexivity |]).
  - pose proof (CZ_pivot_root_pass_through toy_kernel toy_errno
                  41 4096 8192 toy_start) as H.
    cbv zeta in H. destruct H as (_ & _ & _ & H0 & _ & _).
    apply H0. reflexivity.
  - pose proof (CZ_pivot_root_pass_through toy_kernel toy_errno
                  41 0 8192 toy_start) as H.
    cbv zeta in H. destruct H as (_ & _ & _ & _ & H1 & _).
    apply H1. reflexivity.
Defined.

Lemma CZ_pidfd_open_outcomes_witness :
  fd_or_fail (fst (toy_kernel (Syscall 434 [AInt 7; AUInt 0]) toy_start)) /\
  result (exec toy_kernel (CZ_pidfd_open 434 7 0) toy_start) = 3.
Proof.
  assert (Hr : fd_or_fail
                 (fst (toy_kernel (Syscall 434 [AInt 7; AUInt 0]) toy_start))).
  { right. vm_compute. split; discriminate. }
  split; [exact Hr |].
  pose proof (CZ_pidfd_open_outcomes toy_kernel toy_errno
                434 7 0 toy_start) as H.
  cbv zeta in H. destruct H as (_ & _ & H).
  destruct (H Hr) as [H' _]. rewrite H'. reflexivity.
Defined.

Lemma CZ_pidfd_getfd_outcomes_witness :
  fd_or_fail
    (fst (toy_kernel (Syscall 438 [AInt 9; AInt 0; AUInt 0]) toy_start)) /\
  result (exec toy_kernel (CZ_pidfd_getfd 438 9 0 0) toy_start) = -1.
Proof.
  assert (Hr : fd_or_fail
                 (fst (toy_kernel (Syscall 438 [AInt 9; AInt 0; AUInt 0])
                                  toy_start))).
  { left. reflexivity. }
  split; [exact Hr |].
  pose proof (CZ_pidfd_getfd_outcomes toy_kernel toy_errno
                438 9 0 0 toy_start) as H.
  cbv zeta in H. destruct H as (_ & _ & H).
  destruct (H Hr) as [H' _]. rewrite H'. reflexivity.
Defined.

Lemma syscall_h_fallback_numbers_witness :
  (∅ : gmap string Cpp.body) !! "__SYSCALL_H" = None /\
  Cpp.macro (Cpp.preprocess bare_libc Cpp.syscall_h ∅) "SYS_pidfd_open"
    = Some 434 /\
  Cpp.macro (Cpp.preprocess bare_libc Cpp.syscall_h ∅) "SYS_pidfd_getfd"
    = Some 438.
Proof.
  split; [reflexivity |].
  pose proof (syscall_h_fallback_numbers bare_libc ∅ eq_refl) as H.
  cbv zeta in H. destruct H as (Hopen & _ & Hgetfd & _).
  split.
  - apply Hopen. reflexivity.
  - apply Hgetfd. reflexivity.
Defined.

Lemma failure_is_the_kernels_witness :
  exists q,
    fst (toy_kernel q toy_start) = -1 /\
    trace (exec toy_kernel (invoke 41 36 434 438 (PidfdOpen 8 0)) toy_start)
      = [(q, -1)] /\
    result (exec toy_kernel (invoke 41 36 434 438 (PidfdOpen 8 0)) toy_start)
      = -1 /\
    toy_errno
      (world (exec toy_kernel (invoke 41 36 434 438 (PidfdOpen 8 0)) toy_start))
      = ESRCH.
Proof.
  pose proof (failure_is_the_kernels toy_kernel toy_errno 41 36 434 438
                (PidfdOpen 8 0) toy_start) as H.
  cbv zeta in H. destruct H as (q & _ & Htrace & _ & Hfail & _).
  exists q.
  assert (Hq : q = Syscall 434 [AInt 8; AUInt 0]).
  { cbn in Htrace. congruence. }
  assert (Hr : fst (toy_kernel q toy_start) = -1).
  { rewrite Hq. reflexivity. }
  split; [exact Hr |].
  split; [by rewrite Htrace, Hr |].
  destruct (Hfail Hr) as [Hres Herr].
  split; [exact Hres |].
  rewrite Herr, Hq. reflexivity.
Defined.

Lemma subreaper_never_cleared_witness :
  toy_subreaper
    (world (exec toy_kernel (session 41 36 434 438 [SetSubReaper]) toy_start))
    = true /\
  toy_subreaper
    (world (exec toy_kernel
              (session 41 36 434 438
                 ([SetSubReaper] ++
                  [PidfdOpen 7 0; PidfdGetfd 3 0 0; PivotRoot 0 0;
                   PidfdOpen 8 0; SetSubReaper]))
              toy_start))
    = true.
Proof.
  split; [reflexivity |].
  pose proof (subreaper_never_cleared toy_kernel toy_subreaper 41 36 434 438
                [SetSubReaper]
                [PidfdOpen 7 0; PidfdGetfd 3 0 0; PivotRoot 0 0;
                 PidfdOpen 8 0; SetSubReaper]
                toy_start) as H.
  cbv zeta in H. destruct H as (_ & _ & H).
  apply H.
  - intros args. apply toy_keeps_syscall.
  - intros args. apply toy_keeps_syscall.
  - intros args. apply toy_keeps_syscall.
  - intros v rest. apply toy_keeps_set.
  - reflexivity.
Defined.

Lemma wrappers_narrow_to_int_witness :
  in_int (fst (toy_kernel (Syscall 434 [AInt 42; AUInt 0]) toy_start)) /\
  result (exec toy_kernel (CZ_pidfd_open 434 42 0) toy_start) =
  fst (toy_kernel (Syscall 434 [AInt 42; AUInt 0]) toy_start).
Proof.
  assert (Hin : in_int
                  (fst (toy_kernel (Syscall 434 [AInt 42; AUInt 0]) toy_start))).
  { vm_compute. split; discriminate. }
  split; [exact Hin |].
  pose proof (wrappers_narrow_to_int toy_kernel 41 434 438
                4096 8192 42 0 3 0 0 toy_start) as H.
  cbv zeta beta in H. destruct H as (_ & (_ & _ & _ & H) & _).
  apply H, Hin.
Defined.

Lemma shim_keeps_no_state_witness :
  fst (result
         (exec toy_kernel
            (Source.run_call Source.small_libc_value (PivotRoot 4096 8192) ∅)
            toy_start)) =
  fst (result
         (exec toy_kernel
            (Source.run_call Source.small_libc_value (PivotRoot 4096 8192)
               {["calls" := 5]})
            (world (exec toy_kernel
                      (Source.run_calls Source.small_libc_value
                         [SetSubReaper; PidfdOpen 1 0] {["calls" := 5]})
                      toy_start)))).
Proof.
  pose proof (shim_keeps_no_state toy_kernel toy_kernel
                Source.small_libc_value
                [] [SetSubReaper; PidfdOpen 1 0] (PivotRoot 4096 8192)
                ∅ {["calls" := 5]} toy_start toy_start) as H.
  cbv zeta in H. destruct H as (_ & _ & _ & _ & _ & _ & H).
  rewrite (run_calls_store Source.small_libc_value toy_kernel
             [SetSubReaper; PidfdOpen 1 0] {["calls" := 5]} toy_start) in H.
  apply H. reflexivity.
Defined.

End Exercise.

(** ** Reading the header: guard and frame *)

Section Inclusion.

Import Cpp.
Local Open Scope string_scope.

Variable sys : string -> gmap string body -> gmap string body.

Lemma preprocess_syscall_h_guarded (env : gmap string body) :
  is_Some (env !! "__SYSCALL_H") -> preprocess sys syscall_h env = env.
Proof.
  intros [b Hb]. unfold preprocess, syscall_h.
  cbn [foldl directive_exec]. by rewrite Hb.
Qed.

Lemma preprocess_syscall_h_other (env : gmap string body) (name : string) :
  env !! "__SYSCALL_H" = None ->
  name ≠ "SYS_pidfd_open" -> name ≠ "SYS_pidfd_getfd" ->
  preprocess sys syscall_h env !! name =
  sys "sys/types.h" (<["__SYSCALL_H" := Empty]> env) !! name.
Proof.
  intros Hguard Hopen Hgetfd. rewrite preprocess_syscall_h by done.
  unfold fallback_pidfd_getfd, fallback_pidfd_open.
  by rewrite !ifndef_define_other.
Qed.

Lemma macro_fallback (seen after : gmap string body) (name : string) (n c : Z) :
  after !! name = Some (default (Num n) (seen !! name)) ->
  default (Num n) (seen !! name) = Num c ->
  macro after name = Some c.
Proof. intros Hafter Hc. unfold macro. by rewrite Hafter, Hc. Qed.

Lemma preprocess_syscall_h_open (env : gmap string body) :
  env !! "__SYSCALL_H" = None ->
  preprocess sys syscall_h env !! "SYS_pidfd_open" =
  Some (default (Num 434)
          (sys "sys/types.h" (<["__SYSCALL_H" := Empty]> env)
             !! "SYS_pidfd_open")).
Proof.
  intros Hguard. rewrite preprocess_syscall_h by done.
  unfold fallback_pidfd_getfd. rewrite ifndef_define_other by done.
  apply ifndef_define_lookup.
Qed.

Lemma preprocess_syscall_h_getfd (env : gmap string body) :
  env !! "__SYSCALL_H" = None ->
  preprocess sys syscall_h env !! "SYS_pidfd_getfd" =
  Some (default (Num 438)
          (sys "sys/types.h" (<["__SYSCALL_H" := Empty]> env)
             !! "SYS_pidfd_getfd")).
Proof.
  intros Hguard. rewrite preprocess_syscall_h by done.
  unfold fallback_pidfd_getfd. rewrite ifndef_define_lookup.
  unfold fallback_pidfd_open. by rewrite ifndef_define_other.
Qed.

(** X1. Reading [syscall.h] a second time changes nothing, provided
    [<sys/types.h>] does not take the include guard away: the guard makes
    the header idempotent, from any set of macros. *)
Theorem syscall_h_included_twice (env : gmap string body) :
  (forall e, is_Some (e !! "__SYSCALL_H") ->
             is_Some (sys "sys/types.h" e !! "__SYSCALL_H")) ->
  preprocess sys syscall_h (preprocess sys syscall_h env) =
  preprocess sys syscall_h env.
Proof.
  intros Hsys. destruct (env !! "__SYSCALL_H") as [b |] eqn:Hguard.
  - rewrite (preprocess_syscall_h_guarded env) by eauto.
    apply preprocess_syscall_h_guarded. eauto.
  - apply preprocess_syscall_h_guarded.
    rewrite preprocess_syscall_h_other by done.
    apply Hsys. rewrite lookup_insert_eq. eauto.
Qed.

(** X2. Apart from its include guard, the header defines nothing but the
    two [pidfd] numbers: on its first inclusion every other macro name,
    the guard included, stands for what it stood for after the guard was
    defined and [<sys/types.h>] was read; and when the guard is already
    defined the header changes no macro at all. *)
Theorem syscall_h_defines_nothing_else (env : gmap string body) (name : string) :
  name ≠ "SYS_pidfd_open" -> name ≠ "SYS_pidfd_getfd" ->
  (env !! "__SYSCALL_H" = None ->
   preprocess sys syscall_h env !! name =
   sys "sys/types.h" (<["__SYSCALL_H" := Empty]> env) !! name) /\
  (is_Some (env !! "__SYSCALL_H") ->
   preprocess sys syscall_h env = env).
Proof.
  intros Hopen Hgetfd. split.
  - intros Hguard. by apply preprocess_syscall_h_other.
  - apply preprocess_syscall_h_guarded.
Qed.

End Inclusion.

(** ** Building syscall.c against a C library *)

Section Build.

Import Cpp Unit.
Local Open Scope string_scope.

Variable sys : string -> gmap string body -> gmap string body.
Variable env0 : gmap string body.

(** The macros after the three system headers of [syscall.c], and those in
    sight of the fallback blocks of [syscall.h]. *)
Local Abbreviation libc :=
  (sys "unistd.h" (sys "sys/syscall.h" (sys "sys/prctl.h" env0))).
Local Abbreviation seen :=
  (sys "sys/types.h" (<["__SYSCALL_H" := Empty]> libc)).

Lemma resolve_syscall_c :
  libc !! "__SYSCALL_H" = None ->
  resolve (preprocess sys syscall_c env0) =
  (a ← macro seen "SYS_pivot_root";
   b ← macro seen "PR_SET_CHILD_SUBREAPER";
   c ← match default (Num 434) (seen !! "SYS_pidfd_open") with
       | Num n => Some n
       | _ => None
       end;
   d ← match default (Num 438) (seen !! "SYS_pidfd_getfd") with
       | Num n => Some n
       | _ => None
       end;
   Some (Numbers a b c d)).
Proof.
  intros Hguard. rewrite preprocess_syscall_c. unfold resolve, macro.
  rewrite (preprocess_syscall_h_other sys libc "SYS_pivot_root") by done.
  rewrite (preprocess_syscall_h_other sys libc "PR_SET_CHILD_SUBREAPER")
    by done.
  rewrite (preprocess_syscall_h_open sys libc) by done.
  rewrite (preprocess_syscall_h_getfd sys libc) by done.
  reflexivity.
Qed.

(** X3. Take a C library that does not use the header's guard name and
    that defines [SYS_pivot_root] as [a] and [PR_SET_CHILD_SUBREAPER] as
    [b].  Then [syscall.c] compiles to the four functions with these two
    numbers and, for each of the two [pidfd] calls, with the number the
    library gives it or else with the header's own: 434 for [pidfd_open]
    and 438 for [pidfd_getfd]. *)
Theorem syscall_c_numbers (a b c d : Z) :
  libc !! "__SYSCALL_H" = None ->
  macro seen "SYS_pivot_root" = Some a ->
  macro seen "PR_SET_CHILD_SUBREAPER" = Some b ->
  default (Num 434) (seen !! "SYS_pidfd_open") = Num c ->
  default (Num 438) (seen !! "SYS_pidfd_getfd") = Num d ->
  syscall_c_unit sys env0 = Some (invoke a b c d).
Proof.
  intros Hguard Ha Hb Hc Hd. unfold syscall_c_unit.
  rewrite resolve_syscall_c by done.
  rewrite Ha, Hb, Hc, Hd. reflexivity.
Qed.

(** X4. Against a C library that does not use the header's guard name,
    the four names used in the function bodies of [syscall.c] all stand
    for integers exactly when the library defines [SYS_pivot_root] and
    [PR_SET_CHILD_SUBREAPER] as integers and each [pidfd] name is either
    left undefined or defined as an integer, whatever other replacement
    texts there may be: a library that lacks both [pidfd] numbers is
    enough. *)
Theorem syscall_c_builds :
  libc !! "__SYSCALL_H" = None ->
  (is_Some (syscall_c_unit sys env0) <->
   is_Some (macro seen "SYS_pivot_root") /\
   is_Some (macro seen "PR_SET_CHILD_SUBREAPER") /\
   (seen !! "SYS_pidfd_open" = None \/
    is_Some (macro seen "SYS_pidfd_open")) /\
   (seen !! "SYS_pidfd_getfd" = None \/
    is_Some (macro seen "SYS_pidfd_getfd"))).
Proof.
  intros Hguard. unfold syscall_c_unit.
  rewrite fmap_is_Some, resolve_syscall_c by done.
  destruct (macro seen "SYS_pivot_root") as [a |];
    destruct (macro seen "PR_SET_CHILD_SUBREAPER") as [b |];
    unfold macro;
    destruct (seen !! "SYS_pidfd_open") as [[| n | t] |];
    destruct (seen !! "SYS_pidfd_getfd") as [[| m | u] |]; cbn;
    (split;
     [ intros [x Hx]; try discriminate Hx; repeat split; eauto
     | intros ([? Ha] & [? Hb] & [Ho | [? Ho]] & [Hg | [? Hg]]);
       try discriminate Ha; try discriminate Hb;
       try discriminate Ho; try discriminate Hg; eauto ]).
Qed.

(** X5. When the C library itself defines the header's guard name, the
    header is skipped as a whole, fallback numbers included: [syscall.c]
    then compiles only if the library defines all four names itself. *)
Theorem syscall_c_guard_taken :
  is_Some (libc !! "__SYSCALL_H") ->
  syscall_c_unit sys env0 = link <$> resolve libc /\
  (libc !! "SYS_pidfd_open" = None \/ libc !! "SYS_pidfd_getfd" = None ->
   syscall_c_unit sys env0 = None).
Proof.
  intros Hguard. unfold syscall_c_unit.
  rewrite preprocess_syscall_c, preprocess_syscall_h_guarded by done.
  split; [reflexivity |].
  unfold resolve, macro.
  destruct (libc !! "SYS_pivot_root") as [[| a | ta] |]; cbn; try done.
  destruct (libc !! "PR_SET_CHILD_SUBREAPER") as [[| b | tb] |]; cbn;
    try done.
  intros [-> | Hgetfd]; cbn; [done |].
  destruct (libc !! "SYS_pidfd_open") as [[| c | tc] |]; cbn; try done.
  by rewrite Hgetfd.
Qed.

End Build.

(** ** What narrowing to int does to an answer *)

Section Narrowing.

Context {World : Type}.
Variable kernel : request -> World -> Z * World.

Variables SYS_pivot_root PR_SET_CHILD_SUBREAPER : Z.
Variables SYS_pidfd_open SYS_pidfd_getfd : Z.

Lemma int_of_long_fixed z : int_of_long z = z <-> in_int z.
Proof.
  split; [| apply int_of_long_id].
  intros Hz. rewrite <- Hz. apply int_of_long_range.
Qed.

Lemma int_of_long_minus_one z :
  int_of_long z = -1 <-> z mod 2 ^ 32 = 2 ^ 32 - 1.
Proof.
  unfold int_of_long.
  change (2 ^ 31) with 2147483648. change (2 ^ 32) with 4294967296.
  pose proof (Z.div_mod (z + 2147483648) 4294967296).
  pose proof (Z.mod_pos_bound (z + 2147483648) 4294967296).
  pose proof (Z.div_mod z 4294967296).
  pose proof (Z.mod_pos_bound z 4294967296).
  lia.
Qed.

Lemma int_of_long_negative z :
  int_of_long z < 0 <-> 2 ^ 31 <= z mod 2 ^ 32.
Proof.
  unfold int_of_long.
  change (2 ^ 31) with 2147483648. change (2 ^ 32) with 4294967296.
  pose proof (Z.div_mod (z + 2147483648) 4294967296).
  pose proof (Z.mod_pos_bound (z + 2147483648) 4294967296).
  pose proof (Z.div_mod z 4294967296).
  pose proof (Z.mod_pos_bound z 4294967296).
  lia.
Qed.

(** X6. Each of the three functions built on [syscall] returns the
    kernel's answer itself exactly when that answer is representable in
    [int]; an answer outside the [int] range never comes back unchanged.
    [CZ_set_sub_reaper], whose [prctl] already returns [int], returns the
    answer as it is in every case. *)
Theorem answer_unchanged_iff_int
    (new_root put_old pid oflags pidfd targetfd gflags : Z) (w : World) :
  let exact (q : request) (o : outcome Z World) :=
    result o = fst (kernel q w) <-> in_int (fst (kernel q w)) in
  exact (Syscall SYS_pivot_root [APtr new_root; APtr put_old])
    (exec kernel (CZ_pivot_root SYS_pivot_root new_root put_old) w) /\
  exact (Syscall SYS_pidfd_open [AInt pid; AUInt oflags])
    (exec kernel (CZ_pidfd_open SYS_pidfd_open pid oflags) w) /\
  exact (Syscall SYS_pidfd_getfd [AInt pidfd; AInt targetfd; AUInt gflags])
    (exec kernel (CZ_pidfd_getfd SYS_pidfd_getfd pidfd targetfd gflags) w) /\
  result (exec kernel (CZ_set_sub_reaper PR_SET_CHILD_SUBREAPER) w) =
    fst (kernel (Prctl PR_SET_CHILD_SUBREAPER [AInt 1]) w).
Proof.
  intros exact. subst exact. cbn beta.
  rewrite exec_CZ_pivot_root, exec_CZ_pidfd_open, exec_CZ_pidfd_getfd,
    exec_CZ_set_sub_reaper.
  cbn. do 3 (split; [apply int_of_long_fixed |]). reflexivity.
Qed.

(** X7. Each of the three functions built on [syscall] returns -1 exactly
    when the kernel's answer is congruent to -1 modulo [2^32], and a
    negative value exactly when the low 32 bits of the answer are [2^31]
    or more: the caller's failure test sees the low half of the answer
    only. *)
Theorem failure_test_sees_low_half
    (new_root put_old pid oflags pidfd targetfd gflags : Z) (w : World) :
  let low (q : request) (o : outcome Z World) :=
    (result o = -1 <-> fst (kernel q w) mod 2 ^ 32 = 2 ^ 32 - 1) /\
    (result o < 0 <-> 2 ^ 31 <= fst (kernel q w) mod 2 ^ 32) in
  low (Syscall SYS_pivot_root [APtr new_root; APtr put_old])
    (exec kernel (CZ_pivot_root SYS_pivot_root new_root put_old) w) /\
  low (Syscall SYS_pidfd_open [AInt pid; AUInt oflags])
    (exec kernel (CZ_pidfd_open SYS_pidfd_open pid oflags) w) /\
  low (Syscall SYS_pidfd_getfd [AInt pidfd; AInt targetfd; AUInt gflags])
    (exec kernel (CZ_pidfd_getfd SYS_pidfd_getfd pidfd targetfd gflags) w).
Proof.
  intros low. subst low. cbn beta.
  rewrite exec_CZ_pivot_root, exec_CZ_pidfd_open, exec_CZ_pidfd_getfd.
  cbn. pose proof int_of_long_minus_one. pose proof int_of_long_negative.
  auto.
Qed.

End Narrowing.

(** ** The header and the build at work on a small C library *)

Section Samples.

Import Cpp Unit Toy.
Local Open Scope string_scope.

Lemma syscall_h_included_twice_witness :
  preprocess small_libc syscall_h (preprocess small_libc syscall_h ∅) =
  preprocess small_libc syscall_h ∅.
Proof.
  apply (syscall_h_included_twice small_libc ∅).
  intros e He. exact He.
Defined.

Lemma syscall_h_defines_nothing_else_witness :
  preprocess small_libc syscall_h {["SYS_pivot_root" := Num 41]}
    !! "SYS_pivot_root" = Some (Num 41).
Proof.
  pose proof (syscall_h_defines_nothing_else small_libc
                {["SYS_pivot_root" := Num 41]} "SYS_pivot_root") as H.
  destruct H as [H _]; [discriminate | discriminate |].
  rewrite H; reflexivity.
Defined.

Lemma syscall_c_numbers_witness :
  syscall_c_unit small_libc ∅ = Some (invoke 41 36 434 438).
Proof.
  apply (syscall_c_numbers small_libc ∅ 41 36 434 438); reflexivity.
Defined.

Lemma syscall_c_builds_witness :
  is_Some (syscall_c_unit small_libc ∅) /\
  ~ is_Some (syscall_c_unit bare_libc ∅).
Proof.
  split.
  - apply (syscall_c_builds small_libc ∅); [reflexivity |].
    repeat split; eauto; discriminate.
  - intros Hsome.
    apply (syscall_c_builds bare_libc ∅) in Hsome; [| reflexivity].
    destruct Hsome as ([x Hx] & _). discriminate Hx.
Defined.

Lemma syscall_c_guard_taken_witness :
  syscall_c_unit
    (fun header env => <["__SYSCALL_H" := Empty]> (small_libc header env)) ∅
  = None.
Proof.
  apply (syscall_c_guard_taken
           (fun header env =>
              <["__SYSCALL_H" := Empty]> (small_libc header env)) ∅).
  - eexists. reflexivity.
  - left. reflexivity.
Defined.

Lemma answer_unchanged_iff_int_witness :
  result (exec (fun (_ : request) (w : unit) => (2 ^ 31, w))
            (CZ_pidfd_open 434 1 0) tt) <> 2 ^ 31.
Proof.
  pose proof (answer_unchanged_iff_int
                (fun (_ : request) (w : unit) => (2 ^ 31, w))
                41 36 434 438 0 0 1 0 0 0 0 tt) as H.
  cbv zeta beta in H. destruct H as (_ & H & _).
  intros Hres. apply H in Hres. destruct Hres as [_ Hmax].
  vm_compute in Hmax. by apply Hmax.
Defined.

Lemma failure_test_sees_low_half_witness :
  result (exec (fun (_ : request) (w : unit) => (2 ^ 32 - 1, w))
            (CZ_pidfd_open 434 1 0) tt) = -1.
Proof.
  pose proof (failure_test_sees_low_half
                (fun (_ : request) (w : unit) => (2 ^ 32 - 1, w))
                41 434 438 0 0 1 0 0 0 0 tt) as H.
  cbv zeta beta in H. destruct H as (_ & (H & _) & _).
  apply H. reflexivity.
Defined.

End Samples.

(** ** Which calls reach prctl *)

Section Attribute.

Context {World : Type}.
Variable kernel : request -> World -> Z * World.

Variables SYS_pivot_root PR_SET_CHILD_SUBREAPER : Z.
Variables SYS_pidfd_open SYS_pidfd_getfd : Z.

Local Abbreviation session' :=
  (session SYS_pivot_root PR_SET_CHILD_SUBREAPER SYS_pidfd_open SYS_pidfd_getfd).

(** X9. In a sequence of calls the requests on the child-subreaper
    attribute are as many as the calls to [CZ_set_sub_reaper] in it:
    [CZ_pivot_root], [CZ_pidfd_open] and [CZ_pidfd_getfd] never issue a
    [prctl], and a sequence without [CZ_set_sub_reaper] issues none. *)
Theorem prctl_only_from_set_sub_reaper (cs : list call) (w : World) :
  length (List.filter
            (fun e => touches_subreaper PR_SET_CHILD_SUBREAPER (fst e))
            (trace (exec kernel (session' cs) w))) =
  length (List.filter
            (fun c => match c with SetSubReaper => true | _ => false end)
            cs).
Proof.
  revert w. induction cs as [| c cs IH]; intros w; [reflexivity |].
  rewrite exec_session_cons. cbn [trace].
  rewrite List.filter_app, length_app, IH.
  destruct c; cbn; rewrite ?Z.eqb_refl; reflexivity.
Qed.

End Attribute.
